(** * Kitsune argument parser (src/Kitsune.js): a shallow embedding

    The development follows the source file top to bottom:
    - [Js]       the fragment of JavaScript values and built-ins the parser
                 touches ([typeof], [isNaN], [parseInt], [String], truthiness,
                 property reads);
    - [Kitsune]  the error classes, [KitsuneParserType], the [Collection] of
                 types and the methods [addType], [findType], [removeType],
                 [parseType] and [parse];
    - the properties of the specification, stated on these definitions.

    Modelling conventions.
    - Exceptions are an explicit [outcome]: [Return v] or [Throw e].
    - [this.types] is threaded explicitly; the methods that mutate it return
      the new collection next to their outcome.
    - Type names are strings (the registry is keyed by [name]); tokens are
      primitive values or plain objects; strings are ASCII. *)

From Stdlib Require Import ZArith Ascii String List Lia.
From stdpp Require Import base option list gmap strings.

#[local] Set Warnings "-register-all".
Local Open Scope string_scope.
Local Open Scope list_scope.
Local Open Scope Z_scope.

(** ** JavaScript values and built-ins *)
Module Js.

(** A JavaScript number, as far as the parser can produce or inspect one:
    [NaN] or an integer.  [parseInt] only ever yields these two shapes; the
    rounding of digit strings beyond double precision is not modelled. *)
Inductive number : Type :=
| NaN
| Int (z : Z).

(** Primitive values and plain objects (own data properties, in order). *)
Inductive value : Type :=
| VUndefined
| VNull
| VBool (b : bool)
| VNum (n : number)
| VStr (s : string)
| VObj (props : list (string * value)).

(** [ToBoolean]. *)
Definition truthy (v : value) : bool :=
  match v with
  | VUndefined | VNull => false
  | VBool b => b
  | VNum NaN => false
  | VNum (Int z) => negb (z =? 0)
  | VStr s => negb (String.eqb s "")
  | VObj _ => true
  end.

(** [v === false] and [v === undefined]. *)
Definition is_false (v : value) : bool :=
  match v with VBool false => true | _ => false end.

Definition is_undefined (v : value) : bool :=
  match v with VUndefined => true | _ => false end.

(** [typeof v]. *)
Definition typeof (v : value) : string :=
  match v with
  | VUndefined => "undefined"
  | VNull => "object"
  | VBool _ => "boolean"
  | VNum _ => "number"
  | VStr _ => "string"
  | VObj _ => "object"
  end.

(** [v instanceof String] and [v instanceof Number]: only wrapper objects
    ([new String(..)], [new Number(..)]) satisfy them; primitives and plain
    objects do not. *)
Definition instanceof_String (v : value) : bool := false.
Definition instanceof_Number (v : value) : bool := false.

(** Own-property lookup in an object literal. *)
Fixpoint get_prop (key : string) (props : list (string * value)) : value :=
  match props with
  | [] => VUndefined
  | (k, v) :: rest => if String.eqb k key then v else get_prop key rest
  end.

(** *** Characters *)

Definition is_whitespace (c : ascii) : bool :=
  let n := nat_of_ascii c in
  ((9 <=? n) && (n <=? 13))%nat || (n =? 32)%nat.

(** Value of [c] as a digit in base [radix] (2..36), if it is one. *)
Definition digit_value (radix : Z) (c : ascii) : option Z :=
  let n := Z.of_nat (nat_of_ascii c) in
  let d :=
    if (48 <=? n) && (n <=? 57) then Some (n - 48)
    else if (97 <=? n) && (n <=? 122) then Some (n - 87)
    else if (65 <=? n) && (n <=? 90) then Some (n - 55)
    else None in
  match d with
  | Some k => if k <? radix then Some k else None
  | None => None
  end.

Definition is_digit (radix : Z) (c : ascii) : bool :=
  match digit_value radix c with Some _ => true | None => false end.

Fixpoint trim_start (s : list ascii) : list ascii :=
  match s with
  | c :: rest => if is_whitespace c then trim_start rest else s
  | [] => []
  end.

Definition trim (s : list ascii) : list ascii :=
  rev (trim_start (rev (trim_start s))).

(** Longest prefix of base-[radix] digits, and what follows it. *)
Fixpoint span_digits (radix : Z) (s : list ascii) : list ascii * list ascii :=
  match s with
  | c :: rest =>
      if is_digit radix c
      then let '(ds, tl) := span_digits radix rest in (c :: ds, tl)
      else ([], s)
  | [] => ([], [])
  end.

Definition digits_value (radix : Z) (ds : list ascii) : Z :=
  fold_left (fun acc c => acc * radix + default 0 (digit_value radix c)) ds 0.

Definition chars (s : string) : list ascii := list_ascii_of_string s.

Definition strip_sign (s : list ascii) : Z * list ascii :=
  match s with
  | "-"%char :: rest => (-1, rest)
  | "+"%char :: rest => (1, rest)
  | _ => (1, s)
  end.

(** *** [Number(s)] is not [NaN]: the StringNumericLiteral grammar *)

(** [ExponentPart]-opt followed by the end of the string. *)
Definition exponent_opt_end (s : list ascii) : bool :=
  match s with
  | [] => true
  | c :: rest =>
      if (Ascii.eqb c "e" || Ascii.eqb c "E")%bool
      then match span_digits 10 (snd (strip_sign rest)) with
           | (_ :: _, []) => true
           | _ => false
           end
      else false
  end.

(** [StrUnsignedDecimalLiteral]. *)
Definition unsigned_decimal_literal (s : list ascii) : bool :=
  if bool_decide (s = chars "Infinity") then true
  else
    match span_digits 10 s with
    | (_ :: _, "."%char :: rest) =>
        exponent_opt_end (snd (span_digits 10 rest))
    | (_ :: _, rest) => exponent_opt_end rest
    | ([], "."%char :: rest) =>
        match span_digits 10 rest with
        | (_ :: _, rest') => exponent_opt_end rest'
        | ([], _) => false
        end
    | ([], _) => false
    end.

(** [NonDecimalIntegerLiteral]: [0x], [0o] and [0b] forms, unsigned. *)
Definition non_decimal_literal (s : list ascii) : bool :=
  match s with
  | "0"%char :: p :: rest =>
      let radix :=
        if (Ascii.eqb p "x" || Ascii.eqb p "X")%bool then Some 16
        else if (Ascii.eqb p "o" || Ascii.eqb p "O")%bool then Some 8
        else if (Ascii.eqb p "b" || Ascii.eqb p "B")%bool then Some 2
        else None in
      match radix with
      | Some r => match span_digits r rest with
                  | (_ :: _, []) => true
                  | _ => false
                  end
      | None => false
      end
  | _ => false
  end.

(** Whether [StringToNumber s] is a number other than [NaN]; the empty and
    the all-blank string convert to [0]. *)
Definition string_is_numeric (s : string) : bool :=
  let t := trim (chars s) in
  match t with
  | [] => true
  | _ => non_decimal_literal t || unsigned_decimal_literal (snd (strip_sign t))
  end.

(** [String(v)], i.e. [ToString]. *)
Definition decimal_digit (d : Z) : ascii := ascii_of_nat (Z.to_nat (48 + d)).

Fixpoint decimal_chars (fuel : nat) (z : Z) (acc : list ascii) : list ascii :=
  match fuel with
  | O => acc
  | S fuel' =>
      let acc' := decimal_digit (z mod 10) :: acc in
      if z <? 10 then acc' else decimal_chars fuel' (z / 10) acc'
  end.

(** Decimal expansion of an integer; this is [Number::toString] for integers
    below [10^21] in magnitude (larger ones print in exponent notation). *)
Definition number_to_string (n : number) : string :=
  match n with
  | NaN => "NaN"
  | Int z =>
      let ds := decimal_chars (S (Z.to_nat (Z.log2 (Z.abs z)))) (Z.abs z) [] in
      string_of_list_ascii (if z <? 0 then "-"%char :: ds else ds)
  end.

Definition String_ (v : value) : string :=
  match v with
  | VUndefined => "undefined"
  | VNull => "null"
  | VBool true => "true"
  | VBool false => "false"
  | VNum n => number_to_string n
  | VStr s => s
  | VObj _ => "[object Object]"
  end.

(** [isNaN(v)]: [ToNumber v] is [NaN]. *)
Definition isNaN (v : value) : bool :=
  match v with
  | VUndefined => true
  | VNull => false
  | VBool _ => false
  | VNum NaN => true
  | VNum (Int _) => false
  | VStr s => negb (string_is_numeric s)
  | VObj _ => true
  end.

(** [parseInt(v)] with no radix argument: skip leading blanks, read a sign,
    switch to base 16 after a [0x] prefix, and convert the longest run of
    digits; [NaN] when that run is empty. *)
Definition parseInt (v : value) : number :=
  let s := trim_start (chars (String_ v)) in
  let '(sign, s1) := strip_sign s in
  let '(radix, s2) :=
    match s1 with
    | "0"%char :: p :: rest =>
        if (Ascii.eqb p "x" || Ascii.eqb p "X")%bool then (16, rest) else (10, s1)
    | _ => (10, s1)
    end in
  match fst (span_digits radix s2) with
  | [] => NaN
  | ds => Int (sign * digits_value radix ds)
  end.

End Js.

(** ** The parser *)
Module Kitsune.
Import Js.

(** The option bag [{ ...otherOptions }] handed to [check] and [exec]. *)
Definition options : Type := list (string * value).

(** A value or an array of values: the shape of [argToParse], of the [value]
    field of an argument error and of one entry of the parse result. *)
Inductive item : Type :=
| One (v : value)
| Many (vs : list value).

(** The [type] field of a usage entry: a type name or an array of names. *)
Inductive slotType : Type :=
| TName (typeName : string)
| TNames (typeNames : list string).

(** *** Errors (lines 18-53)

    [KitsuneParserArgumentError (value, index, type, message)] and
    [KitsuneParserMessageError (message)] are the classes of the source;
    [TypeError] is the engine's own exception for a property read on
    [undefined] or [null]. *)
Inductive error : Type :=
| KitsuneParserArgumentError
    (val : item) (index : Z) (type : option slotType) (message : option string)
| KitsuneParserMessageError (message : string)
| TypeError.

Inductive outcome (A : Type) : Type :=
| Return (a : A)
| Throw (e : error).
Arguments Return {A} a.
Arguments Throw {A} e.

#[export] Instance outcome_ret : MRet outcome := fun A a => Return a.
#[export] Instance outcome_bind : MBind outcome := fun A B k m =>
  match m with
  | Return a => k a
  | Throw e => Throw e
  end.

(** *** [KitsuneParserType] (lines 55-67) *)
Record KitsuneParserType : Type := {
  name : string;
  info : value;
  exec : value -> options -> value;
  check : value -> options -> value
}.

(** [this.types]: a [Collection] (a [Map]) from type name to descriptor.
    Keys are unique and only ever looked up by equality, so the insertion
    order of the [Map] is not observable. *)
Abbreviation Collection := (gmap string KitsuneParserType).

(** The constructor (lines 74-89): the two built-in types. *)
Definition string_type : KitsuneParserType := {|
  name := "string";
  info := VStr "String";
  check := fun val _ =>
    VBool (String.eqb (typeof val) "string" || instanceof_String val);
  exec := fun val _ => VStr (String_ val)
|}.

Definition number_type : KitsuneParserType := {|
  name := "number";
  info := VStr "Number";
  check := fun val _ =>
    VBool (negb (isNaN val) || String.eqb (typeof val) "number"
           || instanceof_Number val);
  exec := fun val _ => VNum (parseInt val)
|}.

Definition constructor : Collection :=
  <["number" := number_type]> (<["string" := string_type]> ∅).

(** *** [addType] (lines 91-107)

    The argument object [{ name, info, exec, check }]; an absent ([undefined])
    field is [None]. *)
Record typeInit : Type := {
  init_name : option string;
  init_info : value;
  init_exec : option (value -> options -> value);
  init_check : option (value -> options -> value)
}.

Definition addType (init : typeInit) (types : Collection)
  : outcome unit * Collection :=
  match init_name init, init_exec init, init_check init with
  | Some name, Some exec, Some check =>
      if String.eqb name ""
      then (Throw (KitsuneParserMessageError
                     "Cannot add type. No name, execution or checker."), types)
      else (Return tt,
            <[name := {| name := name; info := init_info init;
                         exec := exec; check := check |}]> types)
  | _, _, _ =>
      (Throw (KitsuneParserMessageError
                "Cannot add type. No name, execution or checker."), types)
  end.

(** *** [findType] (lines 109-111): the entry whose key is [type], or
    [undefined] ([None]). *)
Definition findType (type : string) (types : Collection)
  : option KitsuneParserType :=
  types !! type.

(** *** [removeType] (lines 113-116)

    [Map.prototype.delete] takes a key.  The source passes [findedType], the
    value returned by [findType]: a descriptor object or [undefined].  The
    keys of the collection are strings, and neither an object nor [undefined]
    is equal to a string. *)
Inductive mapKey : Type :=
| KeyString (s : string)
| KeyObject (t : KitsuneParserType)
| KeyUndefined.

Definition Collection_delete (key : mapKey) (types : Collection) : Collection :=
  match key with
  | KeyString s => delete s types
  | KeyObject _ | KeyUndefined => types
  end.

Definition removeType (type : string) (types : Collection) : Collection :=
  let findedType := findType type types in
  Collection_delete
    (match findedType with Some t => KeyObject t | None => KeyUndefined end)
    types.

(** *** [parseType] (lines 118-122): [{ value }] or [{ check }]. *)
Inductive typeResult : Type :=
| ResValue (v : value)
| ResCheck (c : value).

Definition parseType (types : Collection) (typeName : string) (val : value)
    (opts : options) : outcome typeResult :=
  match findType typeName types with
  | None => Throw TypeError
  | Some type =>
      let check := type.(check) val opts in
      Return (if truthy check then ResValue (type.(exec) val opts)
              else ResCheck check)
  end.

(** [r.check] and [r.value] on such an object. *)
Definition check_of (r : typeResult) : value :=
  match r with ResValue _ => VUndefined | ResCheck c => c end.

Definition value_of (r : typeResult) : value :=
  match r with ResValue v => v | ResCheck _ => VUndefined end.

(** *** [findLastIndex] (lines 10-16) *)
Fixpoint findLastIndex_loop {A} (array : list A) (predicate : A -> bool)
    (l : nat) : Z :=
  match l with
  | O => -1
  | S l' =>
      if from_option predicate false (array !! l') then Z.of_nat l'
      else findLastIndex_loop array predicate l'
  end.

Definition findLastIndex {A} (array : list A) (predicate : A -> bool) : Z :=
  findLastIndex_loop array predicate (length array).

(** *** [parse] (lines 124-210) *)

(** One entry of [usage], destructured as
    [{ type, required, count, ...otherOptions }].  An omitted [required] is
    [VUndefined]; [count] is a natural number, [None] when omitted. *)
Record UsageSlot : Type := {
  type : slotType;
  required : value;
  count : option nat;
  otherOptions : options
}.

(** The [usage] argument: an array of entries, or anything else. *)
Inductive usageArg : Type :=
| UsageArray (slots : list UsageSlot)
| UsageOther (v : value).

(** [arg.required] on a token (line 137). *)
Definition get_required (arg : value) : outcome value :=
  match arg with
  | VUndefined | VNull => Throw TypeError
  | VObj props => Return (get_prop "required" props)
  | VBool _ | VNum _ | VStr _ => Return VUndefined
  end.

(** The result of resolving one window: an object or an array of objects. *)
Inductive result : Type :=
| ResOne (r : typeResult)
| ResMany (rs : list typeResult).

(** Lines 158-161 and 169-172: resolve the window against one type name. *)
Definition parseArg (types : Collection) (typeName : string)
    (argToParse : item) (opts : options) : outcome result :=
  match argToParse with
  | One arg => r ← parseType types typeName arg opts; mret (ResOne r)
  | Many args =>
      rs ← mapM (fun arg => parseType types typeName arg opts) args;
      mret (ResMany rs)
  end.

(** [if (resultType)]: objects and arrays are truthy. *)
Definition result_truthy (r : result) : bool := true.

(** [type.some(typeName => ...)] (lines 166-182): [Some result] when the
    callback set [isParsed], [None] when it never did. *)
Fixpoint some_type (types : Collection) (typeNames : list string)
    (argToParse : item) (opts : options) : outcome (option result) :=
  match typeNames with
  | [] => mret None
  | typeName :: rest =>
      resultType ← parseArg types typeName argToParse opts;
      if result_truthy resultType then mret (Some resultType)
      else some_type types rest argToParse opts
  end.

(** [result.flatMap((bool, index) => bool.check === undefined ? [] : index)]. *)
Fixpoint failed_indices (rs : list typeResult) (index : nat) : list nat :=
  match rs with
  | [] => []
  | r :: rest =>
      (if is_undefined (check_of r) then [] else [index])
        ++ failed_indices rest (S index)
  end.

Definition item_at (argToParse : item) (i : nat) : value :=
  match argToParse with
  | Many vs => default VUndefined (vs !! i)
  | One _ => VUndefined
  end.

(** Line 154: the window of the slot at cursor [usageIndex].  [count] is
    tested for truthiness, so [0] behaves like an absent count. *)
Definition window (args : list value) (usageIndex : nat) (count : option nat)
  : item :=
  match count with
  | Some (S _ as c) => Many (take c (drop usageIndex args))
  | _ => One (default VUndefined (args !! usageIndex))
  end.

(** Lines 157-187: resolve the window against [type]. *)
Definition resolve (types : Collection) (type : slotType) (argToParse : item)
    (usageIndex : nat) (otherOptions : options) : outcome result :=
  match type with
  | TName typeName => parseArg types typeName argToParse otherOptions
  | TNames typeNames =>
      found ← some_type types typeNames argToParse otherOptions;
      match found with
      | Some result => mret result
      | None =>
          Throw (KitsuneParserArgumentError
                   argToParse (Z.of_nat usageIndex) (Some type) None)
      end
  end.

(** Lines 189-203: the checks on the resolved window. *)
Definition evaluate (slot : UsageSlot) (argToParse : item) (usageIndex : nat)
    (result : result) : outcome unit :=
  _ ←
    match result with
    | ResMany rs =>
        match failed_indices rs 0 with
        | i0 :: _ =>
            Throw (KitsuneParserArgumentError
                     (One (item_at argToParse i0))
                     (Z.of_nat usageIndex + Z.of_nat i0)
                     (Some slot.(type)) None)
        | [] =>
            if from_option (fun c => (length rs <? c)%nat) false slot.(count)
            then Throw (KitsuneParserArgumentError
                          argToParse (Z.of_nat usageIndex) (Some slot.(type))
                          (Some "Passed arguments count is not equal to type count."))
            else mret tt
        end
    | ResOne _ => mret tt
    end;
  let result_check :=
    match result with ResOne r => check_of r | ResMany _ => VUndefined end in
  if negb (is_undefined result_check) && truthy slot.(required)
  then Throw (KitsuneParserArgumentError
                argToParse (Z.of_nat usageIndex) (Some slot.(type)) None)
  else mret tt.

(** Lines 205-206: the entry pushed on [parsed], and the next cursor. *)
Definition entry_of (result : result) : item :=
  match result with
  | ResMany rs => Many (map value_of rs)
  | ResOne r => One (value_of r)
  end.

Definition advance (usageIndex : nat) (count : option nat) : nat :=
  match count with
  | Some (S _ as c) => (usageIndex + c)%nat
  | _ => S usageIndex
  end.

(** The body of the [forEach] callback (lines 153-207) at cursor
    [usageIndex]. *)
Definition parse_slot (types : Collection) (args : list value)
    (usageIndex : nat) (slot : UsageSlot) : outcome (item * nat) :=
  let argToParse := window args usageIndex slot.(count) in
  result ← resolve types slot.(type) argToParse usageIndex slot.(otherOptions);
  _ ← evaluate slot argToParse usageIndex result;
  mret (entry_of result, advance usageIndex slot.(count)).

(** [usage.forEach] with the two variables it updates, [parsed] and
    [usageIndex]. *)
Fixpoint forEach_slot (types : Collection) (args : list value)
    (usage : list UsageSlot) (parsed : list item) (usageIndex : nat)
  : outcome (list item * nat) :=
  match usage with
  | [] => mret (parsed, usageIndex)
  | slot :: rest =>
      '(entry, next) ← parse_slot types args usageIndex slot;
      forEach_slot types args rest (parsed ++ [entry]) next
  end.

(** Lines 137-148: the check on the [required] fields, read off [args]. *)
Definition check_required (args : list value) : outcome unit :=
  requiredArray ← mapM get_required args;
  let len := length (List.filter is_false requiredArray) in
  let pos := findLastIndex requiredArray is_false in
  if (1 <? len)%nat
  then Throw (KitsuneParserArgumentError (One VUndefined) pos None
                (Some "Non-required argument must be only one."))
  else if (pos <? Z.of_nat (length requiredArray) - 1) && negb (pos =? -1)
  then Throw (KitsuneParserArgumentError (One VUndefined) pos None
                (Some "Non-required argument must be at the end of the arguments array."))
  else mret tt.

Definition parse (types : Collection) (args : list value) (usage : usageArg)
  : outcome (list item) :=
  match usage with
  | UsageOther _ =>
      Throw (KitsuneParserMessageError "Parser arguments must be an array.")
  | UsageArray slots =>
      _ ← check_required args;
      '(parsed, _) ← forEach_slot types args slots [] 0%nat;
      mret parsed
  end.

End Kitsune.

Import Js Kitsune.

(** ** Vocabulary of the specification *)

(** The error kinds of the specification, as the source raises them. *)
Definition message_addType : string :=
  "Cannot add type. No name, execution or checker.".
Definition message_only_one : string :=
  "Non-required argument must be only one.".
Definition message_at_the_end : string :=
  "Non-required argument must be at the end of the arguments array.".
Definition message_count : string :=
  "Passed arguments count is not equal to type count.".

Definition ConfigurationError : error :=
  KitsuneParserMessageError message_addType.

Definition TokenValidationError (token : value) (position : nat)
    (type : slotType) : error :=
  KitsuneParserArgumentError (One token) (Z.of_nat position) (Some type) None.

(** The count-mismatch error with the message the source gives it ... *)
Definition ArgumentCountMismatchError (tokens : list value) (cursor : nat)
    (type : slotType) : error :=
  KitsuneParserArgumentError (Many tokens) (Z.of_nat cursor) (Some type)
    (Some message_count).

(** ... and the literal message the specification quotes for it. *)
Definition spec_message_count : string :=
  "argument count does not match declared count.".

(** The errors the specification documents are the two classes of the
    source; the runtime's [TypeError] is not one of them. *)
Definition documented (e : error) : bool :=
  match e with
  | KitsuneParserArgumentError _ _ _ _ | KitsuneParserMessageError _ => true
  | TypeError => false
  end.

(** A slot consumes a single token when its [count] is absent (or [0]). *)
Definition single_token (slot : UsageSlot) : bool :=
  match slot.(count) with Some (S _) => false | _ => true end.

(** The type name a slot is resolved against first: its [type] when that is
    a name, the head of the list when it is a non-empty list. *)
Definition first_tried (type : slotType) : option string :=
  match type with
  | TName typeName => Some typeName
  | TNames (typeName :: _) => Some typeName
  | TNames [] => None
  end.

(** Token [val] passes the check of the type registered as [typeName]. *)
Definition passes (types : Collection) (typeName : string) (opts : options)
    (val : value) : bool :=
  match findType typeName types with
  | Some t => truthy (t.(check) val opts)
  | None => false
  end.

(** Usage entries with no extra options, for the examples. *)
Definition slot (type : slotType) (required : value) (count : option nat)
  : UsageSlot :=
  {| type := type; required := required; count := count; otherOptions := [] |}.

(** ** Auxiliary lemmas *)

Lemma bind_Return {A B} (a : A) (k : A -> outcome B) : (Return a ≫= k) = k a.
Proof. reflexivity. Qed.

Lemma bind_Throw {A B} (e : error) (k : A -> outcome B) :
  (Throw e ≫= k) = Throw e.
Proof. reflexivity. Qed.

Lemma window_single args i slot :
  single_token slot = true ->
  window args i slot.(count) = One (default VUndefined (args !! i)).
Proof.
  unfold single_token, window. destruct (count slot) as [[|c]|]; congruence.
Qed.

Lemma advance_single i slot :
  single_token slot = true -> advance i slot.(count) = S i.
Proof.
  unfold single_token, advance. destruct (count slot) as [[|c]|]; congruence.
Qed.

(** Whatever the checks say, a list of candidates is resolved against its
    head alone. *)
Lemma resolve_first_tried types type typeName argToParse i opts :
  first_tried type = Some typeName ->
  resolve types type argToParse i opts = parseArg types typeName argToParse opts.
Proof.
  destruct type as [n | [| n rest]]; intros H; inversion H; subst; clear H.
  - reflexivity.
  - unfold resolve. cbn [some_type].
    destruct (parseArg types typeName argToParse opts) as [r | e]; reflexivity.
Qed.

Lemma forEach_slot_app types args pre post parsed i :
  forEach_slot types args (pre ++ post) parsed i =
  '(parsed', j) ← forEach_slot types args pre parsed i;
  forEach_slot types args post parsed' j.
Proof.
  revert parsed i. induction pre as [| s pre IH]; intros parsed i.
  - reflexivity.
  - cbn [app forEach_slot].
    destruct (parse_slot types args i s) as [[entry next] | e].
    + rewrite !bind_Return. apply IH.
    + reflexivity.
Qed.

(** A completed loop has pushed exactly one entry per usage slot. *)
Lemma forEach_slot_extends types args usage :
  forall parsed i out j,
    forEach_slot types args usage parsed i = Return (out, j) ->
    exists ext, out = parsed ++ ext /\ length ext = length usage.
Proof.
  induction usage as [| s usage IH]; intros parsed i out j H.
  - inversion H; subst. exists []. split; [by rewrite app_nil_r | done].
  - cbn [forEach_slot] in H.
    destruct (parse_slot types args i s) as [[entry next] | e];
      [rewrite bind_Return in H | discriminate H].
    destruct (IH _ _ _ _ H) as (ext & -> & Hlen).
    exists (entry :: ext). split.
    + by rewrite <- app_assoc.
    + cbn. by rewrite Hlen.
Qed.

(** [parse] once the check on [required] has passed and the slots before
    position [length pre] have been resolved. *)
Lemma parse_reaches types args pre slot post parsed i :
  check_required args = Return tt ->
  forEach_slot types args pre [] 0%nat = Return (parsed, i) ->
  parse types args (UsageArray (pre ++ slot :: post)) =
  '(entry, next) ← parse_slot types args i slot;
  '(out, _) ← forEach_slot types args post (parsed ++ [entry]) next;
  mret out.
Proof.
  intros Hreq Hpre. unfold parse. rewrite Hreq, bind_Return.
  rewrite forEach_slot_app, Hpre, bind_Return. cbn [forEach_slot].
  destruct (parse_slot types args i slot) as [[entry next] | e]; reflexivity.
Qed.

Lemma parseType_unmet types typeName t val opts :
  findType typeName types = Some t ->
  truthy (t.(check) val opts) = false ->
  parseType types typeName val opts = Return (ResCheck (t.(check) val opts)).
Proof. intros Hfind Hcheck. unfold parseType. by rewrite Hfind, Hcheck. Qed.

Lemma parseType_met types typeName t val opts :
  findType typeName types = Some t ->
  truthy (t.(check) val opts) = true ->
  parseType types typeName val opts = Return (ResValue (t.(exec) val opts)).
Proof. intros Hfind Hcheck. unfold parseType. by rewrite Hfind, Hcheck. Qed.

Lemma parseType_unregistered types typeName val opts :
  findType typeName types = None ->
  parseType types typeName val opts = Throw TypeError.
Proof. intros Hfind. unfold parseType. by rewrite Hfind. Qed.

(** A single-token slot whose check is unmet and whose [required] is falsy
    pushes [undefined] and moves the cursor by one. *)
Lemma parse_slot_unmet_not_required types args i slot typeName t :
  single_token slot = true ->
  first_tried slot.(type) = Some typeName ->
  findType typeName types = Some t ->
  truthy (t.(check) (default VUndefined (args !! i)) slot.(otherOptions)) = false ->
  truthy slot.(required) = false ->
  parse_slot types args i slot = Return (One VUndefined, S i).
Proof.
  intros Hsingle Hfirst Hfind Hcheck Hreq. unfold parse_slot.
  rewrite (window_single _ _ _ Hsingle), (advance_single _ _ Hsingle).
  rewrite (resolve_first_tried _ _ _ _ _ _ Hfirst). unfold parseArg.
  rewrite (parseType_unmet _ _ _ _ _ Hfind Hcheck), !bind_Return.
  unfold evaluate. rewrite bind_Return, Hreq, andb_false_r. reflexivity.
Qed.

Lemma mapM_cons {A B} (f : A -> outcome B) x l :
  mapM f (x :: l) = y ← f x; k ← mapM f l; mret (y :: k).
Proof. reflexivity. Qed.

(** A window in which every token passes the check resolves to as many
    [{ value }] objects, none of which is reported as failed. *)
Lemma mapM_parseType_passes types typeName opts vs :
  forallb (passes types typeName opts) vs = true ->
  exists rs,
    mapM (fun arg => parseType types typeName arg opts) vs = Return rs
    /\ length rs = length vs
    /\ forall k, failed_indices rs k = [].
Proof.
  induction vs as [| v vs IH]; intros Hall.
  - exists []. by repeat split.
  - cbn [forallb] in Hall. apply andb_prop in Hall as [Hv Hvs].
    destruct (IH Hvs) as (rs & Hrs & Hlen & Hfailed).
    unfold passes in Hv.
    destruct (findType typeName types) as [t |] eqn:Hfind; [| discriminate Hv].
    exists (ResValue (t.(exec) v opts) :: rs). repeat split.
    + rewrite mapM_cons, (parseType_met _ _ _ _ _ Hfind Hv), bind_Return, Hrs.
      reflexivity.
    + cbn. by rewrite Hlen.
    + intros k. cbn. apply Hfailed.
Qed.

(** [removeType] leaves the collection as it was. *)
Lemma removeType_unchanged type types : removeType type types = types.
Proof. unfold removeType. by destruct (findType type types). Qed.

(** Tokens that are strings carry no [required] property, so the check of
    lines 137-148 lets them through whatever the usage says. *)
Lemma findLastIndex_none {A} (array : list A) (predicate : A -> bool) l :
  (forall x, x ∈ array -> predicate x = false) ->
  findLastIndex_loop array predicate l = -1.
Proof.
  intros Hnone. induction l as [| l IH]; [reflexivity |].
  cbn [findLastIndex_loop].
  destruct (array !! l) as [x |] eqn:Hx; cbn [from_option]; [| exact IH].
  rewrite (Hnone x); [exact IH |]. eapply list_elem_of_lookup_2, Hx.
Qed.

Lemma check_required_strings (tokens : list string) :
  check_required (map VStr tokens) = Return tt.
Proof.
  unfold check_required.
  assert (Hmap : mapM get_required (map VStr tokens)
                 = Return (map (fun _ => VUndefined) tokens)).
  { induction tokens as [| s tokens IH]; [reflexivity |].
    cbn [map]. rewrite mapM_cons, IH. reflexivity. }
  rewrite Hmap, bind_Return.
  assert (Hlen : List.filter is_false (map (fun _ : string => VUndefined) tokens) = []).
  { clear Hmap. induction tokens as [| s tokens IH]; [reflexivity | exact IH]. }
  rewrite Hlen. cbn [length Nat.ltb Nat.leb].
  unfold findLastIndex. rewrite findLastIndex_none.
  { change (-1 =? -1) with true. by rewrite andb_false_r. }
  intros x Hx. apply list_elem_of_fmap in Hx as (s & -> & _). reflexivity.
Qed.

(** ** The registry *)

(** C6. [addType] called without a name (absent or empty), without [exec] or
    without [check] throws the [KitsuneParserMessageError] that plays the
    role of the specification's ConfigurationError, and the collection of
    types it returns is the one it was given. *)
Theorem addType_rejects_incomplete (init : typeInit) (types : Collection) :
  init_name init = None \/ init_name init = Some ""
  \/ init_exec init = None \/ init_check init = None ->
  addType init types = (Throw ConfigurationError, types).
Proof.
  intros H. unfold addType, ConfigurationError, message_addType.
  destruct (init_name init) as [n |], (init_exec init), (init_check init);
    try reflexivity.
  destruct H as [H | [H | [H | H]]]; try discriminate H.
  inversion H; subst. reflexivity.
Qed.

Lemma addType_rejects_incomplete_witness :
  addType {| init_name := Some ""; init_info := VStr "Flag";
             init_exec := Some (fun val _ => val);
             init_check := Some (fun _ _ => VBool true) |} constructor
  = (Throw ConfigurationError, constructor).
Proof.
  apply addType_rejects_incomplete. right. left. reflexivity.
Defined.

(** C3, at the input where the source departs from it: on a fresh parser,
    [removeType('string')] followed by [findType('string')] still returns
    the built-in descriptor, because [removeType] hands the descriptor, not
    its name, to [Map.prototype.delete]. *)
Theorem removeType_keeps_registered :
  findType "string" (removeType "string" constructor) = Some string_type.
Proof. rewrite removeType_unchanged. reflexivity. Qed.

(** ** [parse] on the examples of the specification *)

(** C7. With the built-in types, the tokens ['hello', '42'] against a
    required string slot followed by a required number slot parse to
    ['hello', 42]. *)
Theorem parse_hello_42 :
  parse constructor [VStr "hello"; VStr "42"]
    (UsageArray [slot (TName "string") (VBool true) None;
                 slot (TName "number") (VBool true) None])
  = Return [One (VStr "hello"); One (VNum (Int 42))].
Proof. vm_compute. reflexivity. Qed.

(** C8. The token 'abc' against a required number slot throws an argument
    error with value 'abc', index 0 and type 'number' (and no message): the
    specification's TokenValidationError. *)
Theorem parse_abc_as_number :
  parse constructor [VStr "abc"]
    (UsageArray [slot (TName "number") (VBool true) None])
  = Throw (TokenValidationError (VStr "abc") 0 (TName "number")).
Proof. vm_compute. reflexivity. Qed.

(** C1, at inputs where the source departs from it: the check of lines
    137-148 reads [required] off the tokens, not off the usage entries, so
    with string tokens a usage with two [required: false] slots, and a usage
    whose only [required: false] slot comes first, are both parsed without
    any error. *)
Theorem parse_ignores_usage_required :
  parse constructor [VStr "a"; VStr "b"]
    (UsageArray [slot (TName "string") (VBool false) None;
                 slot (TName "string") (VBool false) None])
  = Return [One (VStr "a"); One (VStr "b")]
  /\
  parse constructor [VStr "a"; VStr "b"]
    (UsageArray [slot (TName "string") (VBool false) None;
                 slot (TName "string") (VBool true) None])
  = Return [One (VStr "a"); One (VStr "b")].
Proof. split; vm_compute; reflexivity. Qed.

(** C2, at an input where the source departs from it: 'abc' fails the check
    of 'number' and passes the check of 'string', yet a required slot of type
    ['number', 'string'] throws instead of returning ['abc'].  The callback
    of [type.some] tests the object returned by [parseType], which is always
    truthy, so the first candidate is the only one ever tried. *)
Theorem union_stops_at_first_candidate :
  passes constructor "number" [] (VStr "abc") = false
  /\ passes constructor "string" [] (VStr "abc") = true
  /\ parse constructor [VStr "abc"]
       (UsageArray [slot (TNames ["number"; "string"]) (VBool true) None])
     = Throw (KitsuneParserArgumentError (One (VStr "abc")) 0
                (Some (TNames ["number"; "string"])) None).
Proof. repeat split; vm_compute; reflexivity. Qed.

(** ** Slots whose check is unmet *)

(** C4, as the source has it.  For a single-token slot with
    [required === false] whose check is unmet, [parse] succeeds and the slot
    contributes the value [undefined]: when it is the last slot, the result
    is the entries of the slots before it followed by [undefined]. *)
Theorem optional_unmet_pushes_undefined
    types args pre slot parsed i typeName t :
  check_required args = Return tt ->
  forEach_slot types args pre [] 0%nat = Return (parsed, i) ->
  single_token slot = true ->
  slot.(required) = VBool false ->
  first_tried slot.(type) = Some typeName ->
  findType typeName types = Some t ->
  truthy (t.(check) (default VUndefined (args !! i)) slot.(otherOptions)) = false ->
  parse types args (UsageArray (pre ++ [slot]))
  = Return (parsed ++ [One VUndefined]).
Proof.
  intros Hreq Hpre Hsingle Hopt Hfirst Hfind Hcheck.
  rewrite (parse_reaches _ _ _ _ _ _ _ Hreq Hpre).
  rewrite (parse_slot_unmet_not_required _ _ _ _ _ _ Hsingle Hfirst Hfind Hcheck).
  - reflexivity.
  - by rewrite Hopt.
Qed.

(** The example of the specification: the result is ['only', undefined]. *)
Lemma optional_unmet_pushes_undefined_witness :
  parse constructor [VStr "only"]
    (UsageArray ([slot (TName "string") (VBool true) None]
                 ++ [slot (TName "string") (VBool false) None]))
  = Return ([One (VStr "only")] ++ [One VUndefined]).
Proof.
  apply (optional_unmet_pushes_undefined constructor [VStr "only"]
           [slot (TName "string") (VBool true) None]
           (slot (TName "string") (VBool false) None)
           [One (VStr "only")] 1%nat "string" string_type);
    vm_compute; reflexivity.
Defined.

(** C4 as stated fails on its own example: the result does not consist of
    exactly one value. *)
Lemma optional_unmet_not_omitted :
  ~ exists entry,
      parse constructor [VStr "only"]
        (UsageArray [slot (TName "string") (VBool true) None;
                     slot (TName "string") (VBool false) None])
      = Return [entry].
Proof. intros [entry H]. vm_compute in H. discriminate H. Qed.

(** C10. A slot without a [required] field behaves as an optional one: when
    the check of a single-token slot is unmet, the slot throws nothing and
    pushes [undefined]; the result has [undefined] at the position of the
    slot, and as many entries as the usage has slots. *)
Theorem omitted_required_pushes_undefined
    types args pre slot parsed i typeName t :
  check_required args = Return tt ->
  forEach_slot types args pre [] 0%nat = Return (parsed, i) ->
  single_token slot = true ->
  slot.(required) = VUndefined ->
  first_tried slot.(type) = Some typeName ->
  findType typeName types = Some t ->
  truthy (t.(check) (default VUndefined (args !! i)) slot.(otherOptions)) = false ->
  parse_slot types args i slot = Return (One VUndefined, S i)
  /\ parse types args (UsageArray (pre ++ [slot]))
     = Return (parsed ++ [One VUndefined])
  /\ length (parsed ++ [One VUndefined]) = length (pre ++ [slot])
  /\ forall post out,
       parse types args (UsageArray (pre ++ slot :: post)) = Return out ->
       out !! length pre = Some (One VUndefined)
       /\ length out = length (pre ++ slot :: post).
Proof.
  intros Hreq Hpre Hsingle Hopt Hfirst Hfind Hcheck.
  assert (Hslot : parse_slot types args i slot = Return (One VUndefined, S i)).
  { apply (parse_slot_unmet_not_required _ _ _ _ _ _ Hsingle Hfirst Hfind Hcheck).
    by rewrite Hopt. }
  destruct (forEach_slot_extends _ _ _ _ _ _ _ Hpre) as (ext & Hext & Hlen).
  cbn [app] in Hext. subst ext.
  repeat split.
  - exact Hslot.
  - rewrite (parse_reaches _ _ _ _ _ _ _ Hreq Hpre), Hslot. reflexivity.
  - rewrite !length_app. cbn. by rewrite Hlen.
  - rewrite (parse_reaches _ _ _ _ _ _ _ Hreq Hpre), Hslot, bind_Return in H.
    destruct (forEach_slot types args post (parsed ++ [One VUndefined]) (S i))
      as [[out' j] | e] eqn:Hpost; [| discriminate H].
    inversion H; subst out'.
    destruct (forEach_slot_extends _ _ _ _ _ _ _ Hpost) as (ext & -> & _).
    rewrite <- app_assoc, <- Hlen. cbn [app].
    by rewrite list_lookup_middle.
  - rewrite (parse_reaches _ _ _ _ _ _ _ Hreq Hpre), Hslot, bind_Return in H.
    destruct (forEach_slot types args post (parsed ++ [One VUndefined]) (S i))
      as [[out' j] | e] eqn:Hpost; [| discriminate H].
    inversion H; subst out'.
    destruct (forEach_slot_extends _ _ _ _ _ _ _ Hpost) as (ext & -> & Hext).
    rewrite !length_app. cbn. rewrite Hlen, Hext. lia.
Qed.

Lemma omitted_required_pushes_undefined_witness :
  parse_slot constructor [VStr "7"; VStr "abc"] 1%nat
    (slot (TName "number") VUndefined None)
  = Return (One VUndefined, 2%nat)
  /\ parse constructor [VStr "7"; VStr "abc"]
       (UsageArray ([slot (TName "number") (VBool true) None]
                    ++ [slot (TName "number") VUndefined None]))
     = Return ([One (VNum (Int 7))] ++ [One VUndefined]).
Proof.
  refine (let H := omitted_required_pushes_undefined constructor
                      [VStr "7"; VStr "abc"]
                      [slot (TName "number") (VBool true) None]
                      (slot (TName "number") VUndefined None)
                      [One (VNum (Int 7))] 1%nat "number" number_type
                      _ _ _ _ _ _ _ in
          conj (proj1 H) (proj1 (proj2 H)));
    reflexivity.
Defined.

(** ** Fixed-count slots *)

(** C5, as the source has it.  When fewer than [count] tokens remain at the
    cursor and each of them passes the check, [parse] throws an argument
    error carrying the tokens that remain, the cursor, the type of the slot
    and the message "Passed arguments count is not equal to type count." *)
Theorem short_window_count_mismatch
    types args pre slot post parsed i c typeName :
  check_required args = Return tt ->
  forEach_slot types args pre [] 0%nat = Return (parsed, i) ->
  slot.(count) = Some c ->
  (length args - i < c)%nat ->
  first_tried slot.(type) = Some typeName ->
  forallb (passes types typeName slot.(otherOptions)) (drop i args) = true ->
  parse types args (UsageArray (pre ++ slot :: post))
  = Throw (ArgumentCountMismatchError (drop i args) i slot.(type)).
Proof.
  intros Hreq Hpre Hcount Hshort Hfirst Hpass.
  rewrite (parse_reaches _ _ _ _ _ _ _ Hreq Hpre). unfold parse_slot.
  assert (Hwin : window args i slot.(count) = Many (drop i args)).
  { rewrite Hcount. unfold window. destruct c as [| c]; [lia |].
    rewrite take_ge; [reflexivity |]. rewrite length_drop. lia. }
  rewrite Hwin, (resolve_first_tried _ _ _ _ _ _ Hfirst). unfold parseArg.
  destruct (mapM_parseType_passes _ _ _ _ Hpass) as (rs & Hrs & Hlen & Hfailed).
  rewrite Hrs, !bind_Return. unfold evaluate.
  rewrite Hfailed, Hcount. cbn [from_option].
  assert (Hlt : (length rs <? c)%nat = true).
  { apply Nat.ltb_lt. rewrite Hlen, length_drop. exact Hshort. }
  rewrite Hlt. reflexivity.
Qed.

(** The example of the specification: two tokens for a count of three. *)
Lemma short_window_count_mismatch_witness :
  parse constructor [VStr "a"; VStr "b"]
    (UsageArray ([] ++ slot (TName "string") (VBool true) (Some 3%nat) :: []))
  = Throw (ArgumentCountMismatchError [VStr "a"; VStr "b"] 0 (TName "string")).
Proof.
  apply (short_window_count_mismatch constructor [VStr "a"; VStr "b"] []
           (slot (TName "string") (VBool true) (Some 3%nat)) [] [] 0%nat
           3%nat "string");
    first [ vm_compute; reflexivity | cbn; lia ].
Defined.

(** C5 as stated fails on its own example: no error carrying the message
    quoted by the specification is thrown. *)
Lemma short_window_message_differs :
  ~ exists val index type,
      parse constructor [VStr "a"; VStr "b"]
        (UsageArray [slot (TName "string") (VBool true) (Some 3%nat)])
      = Throw (KitsuneParserArgumentError val index type
                 (Some spec_message_count)).
Proof. intros (val & index & type & H). vm_compute in H. discriminate H. Qed.

(** ** Types that are not registered *)

(** C9, as the source has it.  When the type name a slot is resolved
    against (its [type], or the head of a list of names) is not in the
    collection and the slot has a token position to resolve (a single-token
    slot, or a counted slot with a token left at the cursor), [findType]
    yields [undefined], [parseType] throws the runtime's [TypeError] on
    reading [check], and a [parse] that reaches the slot ends in that
    [TypeError], which is none of the documented error classes and carries
    no value, index or type. *)
Theorem unregistered_type_throws_TypeError
    types args pre slot post parsed i typeName :
  findType typeName types = None ->
  check_required args = Return tt ->
  forEach_slot types args pre [] 0%nat = Return (parsed, i) ->
  first_tried slot.(type) = Some typeName ->
  single_token slot = true \/ (i < length args)%nat ->
  (forall val opts, parseType types typeName val opts = Throw TypeError)
  /\ parse types args (UsageArray (pre ++ slot :: post)) = Throw TypeError
  /\ documented TypeError = false.
Proof.
  intros Hfind Hreq Hpre Hfirst Htoken. repeat split.
  - intros val opts. by apply parseType_unregistered.
  - rewrite (parse_reaches _ _ _ _ _ _ _ Hreq Hpre). unfold parse_slot.
    rewrite (resolve_first_tried _ _ _ _ _ _ Hfirst).
    destruct (single_token slot) eqn:Hsingle.
    + rewrite (window_single _ _ _ Hsingle). unfold parseArg.
      by rewrite (parseType_unregistered _ _ _ _ Hfind).
    + destruct Htoken as [Habs | Hlt]; [discriminate Habs |].
      unfold single_token in Hsingle. unfold window.
      destruct (count slot) as [[| c] |]; try discriminate Hsingle.
      destruct (lookup_lt_is_Some_2 args i Hlt) as [v Hv].
      rewrite (drop_S _ _ _ Hv). cbn [take]. unfold parseArg.
      by rewrite mapM_cons, (parseType_unregistered _ _ _ _ Hfind).
Qed.

Lemma unregistered_type_throws_TypeError_witness :
  parse constructor [VStr "a"]
    (UsageArray ([] ++ slot (TName "date") (VBool true) None :: []))
  = Throw TypeError.
Proof.
  refine (let H := unregistered_type_throws_TypeError constructor
                      [VStr "a"] []
                      (slot (TName "date") (VBool true) None) [] [] 0%nat
                      "date" _ _ _ _ (or_introl _) in
          proj1 (proj2 H));
    vm_compute; reflexivity.
Defined.

(** C9 as stated fails for a counted slot with no token left: the type
    'date' is not registered, yet nothing is looked up and [parse] throws the
    documented count-mismatch error. *)
Lemma unregistered_type_empty_window :
  findType "date" constructor = None
  /\ parse constructor []
       (UsageArray [slot (TName "date") (VBool true) (Some 2%nat)])
     = Throw (ArgumentCountMismatchError [] 0 (TName "date"))
  /\ documented (ArgumentCountMismatchError [] 0 (TName "date")) = true.
Proof. repeat split; vm_compute; reflexivity. Qed.

(** ** Further consequences of the source *)

(** X20. With string tokens [parse] goes straight to the slots, whatever
    the [required] fields of the usage are: the check of lines 137-148 never
    throws for them. *)
Lemma parse_strings_skips_check types (tokens : list string) slots :
  parse types (map VStr tokens) (UsageArray slots) =
  '(parsed, _) ← forEach_slot types (map VStr tokens) slots [] 0%nat;
  mret parsed.
Proof. unfold parse. by rewrite check_required_strings, bind_Return. Qed.

(** Tokens that are objects are what the check of lines 137-148 looks at. *)
Example check_required_object_tokens :
  parse constructor
    [VObj [("required", VBool false)]; VObj [("required", VBool false)]]
    (UsageArray [])
  = Throw (KitsuneParserArgumentError (One VUndefined) 1 None
             (Some message_only_one)).
Proof. vm_compute. reflexivity. Qed.

(** X21. [removeType] never changes what [findType] returns, for the
    removed name or any other: no entry is ever deleted. *)
Lemma findType_removeType type type' types :
  findType type' (removeType type types) = findType type' types.
Proof. by rewrite removeType_unchanged. Qed.

(** A successful [addType] makes the descriptor available under its name. *)
Lemma findType_addType name info exec check types :
  name <> "" ->
  exists types',
    addType {| init_name := Some name; init_info := info;
               init_exec := Some exec; init_check := Some check |} types
    = (Return tt, types')
    /\ findType name types'
       = Some {| Kitsune.name := name; Kitsune.info := info;
                 Kitsune.exec := exec; Kitsune.check := check |}.
Proof.
  intros Hname. unfold addType. cbn.
  destruct (String.eqb name "") eqn:Heq.
  - apply String.eqb_eq in Heq. contradiction.
  - eexists. split; [reflexivity |]. unfold findType. apply lookup_insert_eq.
Qed.

(** The specification's example of a list of names with a count: both
    tokens are resolved against 'string'. *)
Example parse_union_count :
  parse constructor [VStr "a"; VStr "b"]
    (UsageArray [slot (TNames ["string"; "number"]) (VBool true) (Some 2%nat)])
  = Return [Many [VStr "a"; VStr "b"]].
Proof. vm_compute. reflexivity. Qed.

(** A failing token inside a counted window is reported with its own value
    and its absolute index. *)
Example parse_count_failing_token :
  parse constructor [VStr "1"; VStr "2"; VStr "x"; VStr "4"]
    (UsageArray [slot (TName "number") (VBool true) None;
                 slot (TName "number") (VBool true) (Some 3%nat)])
  = Throw (TokenValidationError (VStr "x") 2 (TName "number")).
Proof. vm_compute. reflexivity. Qed.

(** ** [findLastIndex] *)

Lemma findLastIndex_loop_found {A} (array : list A) (predicate : A -> bool) l i :
  findLastIndex_loop array predicate l = Z.of_nat i ->
  (i < l)%nat
  /\ exists x, array !! i = Some x /\ predicate x = true
     /\ forall j y, (i < j < l)%nat -> array !! j = Some y -> predicate y = false.
Proof.
  induction l as [| l IH]; cbn [findLastIndex_loop]; intros H; [lia |].
  destruct (array !! l) as [x |] eqn:Hx; cbn [from_option] in H.
  - destruct (predicate x) eqn:Hp.
    + apply Nat2Z.inj in H. subst i. split; [lia |].
      exists x. repeat split; [exact Hx | exact Hp |]. intros j y Hj. lia.
    + destruct (IH H) as (Hlt & x' & Hx' & Hp' & Hlater).
      split; [lia |]. exists x'. repeat split; [exact Hx' | exact Hp' |].
      intros j y Hj Hy. destruct (decide (j = l)) as [-> | Hne].
      * rewrite Hx in Hy. by inversion Hy; subst.
      * apply (Hlater j y); [lia | exact Hy].
  - destruct (IH H) as (Hlt & x' & Hx' & Hp' & Hlater).
    split; [lia |]. exists x'. repeat split; [exact Hx' | exact Hp' |].
    intros j y Hj Hy. destruct (decide (j = l)) as [-> | Hne].
    + rewrite Hx in Hy. discriminate Hy.
    + apply (Hlater j y); [lia | exact Hy].
Qed.

Lemma findLastIndex_loop_none {A} (array : list A) (predicate : A -> bool) l :
  findLastIndex_loop array predicate l = -1 ->
  forall j y, (j < l)%nat -> array !! j = Some y -> predicate y = false.
Proof.
  induction l as [| l IH]; cbn [findLastIndex_loop]; intros H j y Hj Hy; [lia |].
  destruct (array !! l) as [x |] eqn:Hx; cbn [from_option] in H.
  - destruct (predicate x) eqn:Hp; [lia |].
    destruct (decide (j = l)) as [-> | Hne].
    + rewrite Hx in Hy. by inversion Hy; subst.
    + apply (IH H j y); [lia | exact Hy].
  - destruct (decide (j = l)) as [-> | Hne].
    + rewrite Hx in Hy. discriminate Hy.
    + apply (IH H j y); [lia | exact Hy].
Qed.

(** X1. A non-negative result of [findLastIndex] is the index of an element
    that satisfies the predicate, and no element after it does. *)
Theorem findLastIndex_is_last {A} (array : list A) (predicate : A -> bool) i :
  findLastIndex array predicate = Z.of_nat i ->
  exists x, array !! i = Some x /\ predicate x = true
    /\ forall j y, (i < j)%nat -> array !! j = Some y -> predicate y = false.
Proof.
  intros H. destruct (findLastIndex_loop_found _ _ _ _ H) as (_ & x & Hx & Hp & Hl).
  exists x. repeat split; [exact Hx | exact Hp |].
  intros j y Hj Hy. apply (Hl j y); [| exact Hy].
  split; [exact Hj |]. eapply lookup_lt_Some, Hy.
Qed.

Lemma findLastIndex_is_last_witness :
  exists x, [VBool true; VBool false; VUndefined; VBool false; VStr "x"] !! 3%nat
            = Some x
    /\ is_false x = true
    /\ forall j y, (3 < j)%nat ->
         [VBool true; VBool false; VUndefined; VBool false; VStr "x"] !! j = Some y ->
         is_false y = false.
Proof.
  apply (findLastIndex_is_last
           [VBool true; VBool false; VUndefined; VBool false; VStr "x"]
           is_false 3%nat).
  reflexivity.
Defined.

(** X2. [findLastIndex] returns [-1] exactly when no element of the array
    satisfies the predicate (in particular on the empty array). *)
Theorem findLastIndex_minus_one {A} (array : list A) (predicate : A -> bool) :
  findLastIndex array predicate = -1
  <-> forall x, x ∈ array -> predicate x = false.
Proof.
  split.
  - intros H x Hx. apply list_elem_of_lookup in Hx as [j Hj].
    apply (findLastIndex_loop_none _ _ _ H j x); [| exact Hj].
    eapply lookup_lt_Some, Hj.
  - intros H. by apply findLastIndex_none.
Qed.

(** ** The registry, continued *)

Lemma findType_string : findType "string" constructor = Some string_type.
Proof. reflexivity. Qed.

Lemma findType_number : findType "number" constructor = Some number_type.
Proof. reflexivity. Qed.

(** X3. A new parser knows exactly the two built-in names. *)
Theorem constructor_names typeName :
  findType typeName constructor <> None
  <-> typeName = "string" \/ typeName = "number".
Proof.
  unfold findType, constructor. rewrite !lookup_insert, lookup_empty.
  destruct (decide ("number" = typeName)) as [<- | Hn];
    [split; [auto | discriminate] |].
  destruct (decide ("string" = typeName)) as [<- | Hs];
    [split; [auto | discriminate] |].
  split; [congruence |]. intros [-> | ->]; congruence.
Qed.

(** X4. [addType] with a non-empty name, an [exec] and a [check] succeeds,
    and [findType] then returns a descriptor with exactly the fields that
    were passed. *)
Theorem addType_then_findType name info exec check types :
  name <> "" ->
  let init := {| init_name := Some name; init_info := info;
                 init_exec := Some exec; init_check := Some check |} in
  fst (addType init types) = Return tt
  /\ findType name (snd (addType init types))
     = Some {| Kitsune.name := name; Kitsune.info := info;
               Kitsune.exec := exec; Kitsune.check := check |}.
Proof.
  intros Hname init. unfold addType, init. cbn.
  destruct (String.eqb name "") eqn:Heq.
  - apply String.eqb_eq in Heq. contradiction.
  - split; [reflexivity |]. unfold findType. cbn. apply lookup_insert_eq.
Qed.

Lemma addType_then_findType_witness :
  fst (addType {| init_name := Some "flag"; init_info := VStr "Flag";
                  init_exec := Some (fun val _ => val);
                  init_check := Some (fun _ _ => VBool true) |} constructor)
  = Return tt.
Proof.
  refine (proj1 (addType_then_findType "flag" (VStr "Flag") (fun val _ => val)
                   (fun _ _ => VBool true) constructor _)).
  discriminate.
Defined.

(** X5. [addType] changes the entry of its own name only: every other name
    is found as before, whether the call succeeds or throws. *)
Theorem addType_other_names init types typeName :
  init_name init <> Some typeName ->
  findType typeName (snd (addType init types)) = findType typeName types.
Proof.
  intros Hne. unfold addType.
  destruct (init_name init) as [n |], (init_exec init), (init_check init);
    try reflexivity.
  destruct (String.eqb n ""); [reflexivity |].
  unfold findType. cbn. apply lookup_insert_ne. congruence.
Qed.

Lemma addType_other_names_witness :
  findType "string"
    (snd (addType {| init_name := Some "flag"; init_info := VStr "Flag";
                     init_exec := Some (fun val _ => val);
                     init_check := Some (fun _ _ => VBool true) |} constructor))
  = findType "string" constructor.
Proof.
  apply addType_other_names. discriminate.
Defined.

(** X6. Registering a name twice keeps the second descriptor only: the
    collection is the one a single call with the second descriptor gives. *)
Theorem addType_overwrites name info1 exec1 check1 info2 exec2 check2 types :
  let first := {| init_name := Some name; init_info := info1;
                  init_exec := Some exec1; init_check := Some check1 |} in
  let second := {| init_name := Some name; init_info := info2;
                   init_exec := Some exec2; init_check := Some check2 |} in
  addType second (snd (addType first types)) = addType second types.
Proof.
  intros first second. unfold addType, first, second. cbn.
  destruct (String.eqb name ""); [reflexivity |]. cbn.
  by rewrite insert_insert_eq.
Qed.

(** ** [parse] as a whole *)

Lemma get_required_throws arg e : get_required arg = Throw e -> e = TypeError.
Proof. destruct arg; cbn; intros H; by inversion H. Qed.

Lemma mapM_get_required_nullish args :
  VUndefined ∈ args \/ VNull ∈ args ->
  mapM get_required args = Throw TypeError.
Proof.
  induction args as [| a args IH]; intros H.
  - destruct H as [H | H]; by apply elem_of_nil in H.
  - rewrite mapM_cons. destruct (get_required a) as [r | e] eqn:Ha.
    + rewrite bind_Return, IH; [reflexivity |].
      destruct H as [H | H]; apply elem_of_cons in H as [<- | H];
        try discriminate Ha; auto.
    + rewrite bind_Throw. by rewrite (get_required_throws _ _ Ha).
Qed.

(** X7. A token that is [undefined] or [null] makes [parse] throw the
    runtime's [TypeError] before any slot is looked at, whatever the usage
    array and the registered types are: line 137 reads [arg.required] on
    every token. *)
Theorem parse_nullish_token types args slots :
  VUndefined ∈ args \/ VNull ∈ args ->
  parse types args (UsageArray slots) = Throw TypeError.
Proof.
  intros H. unfold parse, check_required.
  by rewrite (mapM_get_required_nullish _ H).
Qed.

Lemma parse_nullish_token_witness :
  parse constructor [VStr "a"; VNull]
    (UsageArray [slot (TName "string") (VBool true) None])
  = Throw TypeError.
Proof.
  apply parse_nullish_token. right. apply elem_of_cons. right.
  apply elem_of_cons. left. reflexivity.
Defined.

(** X8. A [parse] that returns has pushed exactly one entry per usage slot:
    the result is as long as the usage array. *)
Theorem parse_length types args slots out :
  parse types args (UsageArray slots) = Return out ->
  length out = length slots.
Proof.
  unfold parse. intros H.
  destruct (check_required args) as [[] | e]; [| discriminate H].
  rewrite bind_Return in H.
  destruct (forEach_slot types args slots [] 0%nat) as [[parsed j] | e] eqn:Hloop;
    [| discriminate H].
  inversion H; subst out.
  destruct (forEach_slot_extends _ _ _ _ _ _ _ Hloop) as (ext & -> & Hlen).
  exact Hlen.
Qed.

Lemma parse_length_witness :
  length [One (VStr "hello"); One (VNum (Int 42))]
  = length [slot (TName "string") (VBool true) None;
            slot (TName "number") (VBool true) None].
Proof.
  apply (parse_length constructor [VStr "hello"; VStr "42"]).
  vm_compute. reflexivity.
Defined.

Lemma parse_slot_next types args i slot entry next :
  parse_slot types args i slot = Return (entry, next) ->
  next = advance i slot.(count).
Proof.
  unfold parse_slot. intros H.
  destruct (resolve types (type slot) (window args i (count slot)) i
              (otherOptions slot)) as [r | e]; [| discriminate H].
  rewrite bind_Return in H.
  destruct (evaluate slot (window args i (count slot)) i r) as [[] | e];
    [| discriminate H].
  by inversion H.
Qed.

Lemma advance_from_zero i count : advance i count = (i + advance 0 count)%nat.
Proof. unfold advance. destruct count as [[| c] |]; lia. Qed.

(** X9. When the loop over the usage array completes, the cursor has moved
    by [count] for every slot with a (non-zero) count and by one for every
    other slot, whatever the tokens were. *)
Theorem forEach_slot_cursor types args usage :
  forall parsed i out j,
    forEach_slot types args usage parsed i = Return (out, j) ->
    j = (i + sum_list_with (fun s => advance 0 s.(count)) usage)%nat.
Proof.
  induction usage as [| s usage IH]; intros parsed i out j H.
  - inversion H; subst. cbn. lia.
  - cbn [forEach_slot] in H.
    destruct (parse_slot types args i s) as [[entry next] | e] eqn:Hs;
      [rewrite bind_Return in H | discriminate H].
    apply parse_slot_next in Hs. apply IH in H.
    rewrite H, Hs, (advance_from_zero i). cbn [sum_list_with]. lia.
Qed.

Lemma forEach_slot_cursor_witness :
  3%nat = (0 + sum_list_with (fun s => advance 0 s.(count))
                 [slot (TName "string") (VBool true) None;
                  slot (TName "string") (VBool true) (Some 2%nat)])%nat.
Proof.
  apply (forEach_slot_cursor constructor [VStr "a"; VStr "b"; VStr "c"]
           [slot (TName "string") (VBool true) None;
            slot (TName "string") (VBool true) (Some 2%nat)]
           [] 0%nat [One (VStr "a"); Many [VStr "b"; VStr "c"]] 3%nat).
  vm_compute. reflexivity.
Defined.

(** X10. The first slot that throws decides the outcome: when the loop over
    a prefix of the usage array throws [e], so does [parse] on the whole
    array, whatever slots follow. *)
Theorem parse_first_error types args pre post e :
  check_required args = Return tt ->
  forEach_slot types args pre [] 0%nat = Throw e ->
  parse types args (UsageArray (pre ++ post)) = Throw e.
Proof.
  intros Hreq Hpre. unfold parse.
  by rewrite Hreq, bind_Return, forEach_slot_app, Hpre.
Qed.

Lemma parse_first_error_witness :
  parse constructor [VStr "x"; VStr "7"]
    (UsageArray ([slot (TName "number") (VBool true) None]
                 ++ [slot (TName "date") (VBool true) None]))
  = Throw (TokenValidationError (VStr "x") 0 (TName "number")).
Proof.
  apply parse_first_error; vm_compute; reflexivity.
Defined.

(** X11. Resolving a window against a non-empty list of type names gives
    exactly what resolving it against the first name alone gives; the other
    names are never looked up. *)
Theorem resolve_list_is_first_name types typeName rest argToParse i opts :
  resolve types (TNames (typeName :: rest)) argToParse i opts
  = resolve types (TName typeName) argToParse i opts.
Proof.
  rewrite (resolve_first_tried types (TNames (typeName :: rest)) typeName);
    reflexivity.
Qed.

(** X12. A slot whose [type] is the empty list throws an argument error
    carrying the window, the cursor and the empty list, with no message,
    whatever the tokens, [required] and [count] are. *)
Theorem parse_slot_empty_list types args i required count opts :
  parse_slot types args i
    {| type := TNames []; required := required; count := count;
       otherOptions := opts |}
  = Throw (KitsuneParserArgumentError (window args i count) (Z.of_nat i)
             (Some (TNames [])) None).
Proof. reflexivity. Qed.

(** ** Single-token slots *)

(** The three ways out of a single-token slot with a registered type. *)
Lemma parse_slot_single_cases types args i slot typeName t :
  single_token slot = true ->
  first_tried slot.(type) = Some typeName ->
  findType typeName types = Some t ->
  parse_slot types args i slot =
  (if truthy (t.(check) (default VUndefined (args !! i)) slot.(otherOptions))
   then Return (One (t.(exec) (default VUndefined (args !! i))
                       slot.(otherOptions)), S i)
   else if negb (is_undefined
                   (t.(check) (default VUndefined (args !! i))
                      slot.(otherOptions)))
           && truthy slot.(required)
   then Throw (KitsuneParserArgumentError
                 (One (default VUndefined (args !! i))) (Z.of_nat i)
                 (Some slot.(type)) None)
   else Return (One VUndefined, S i)).
Proof.
  intros Hsingle Hfirst Hfind. unfold parse_slot.
  rewrite (window_single _ _ _ Hsingle), (advance_single _ _ Hsingle).
  rewrite (resolve_first_tried _ _ _ _ _ _ Hfirst). unfold parseArg, parseType.
  rewrite Hfind, !bind_Return. unfold evaluate.
  destruct (truthy (check t (default VUndefined (args !! i)) (otherOptions slot))).
  - reflexivity.
  - rewrite bind_Return. cbn [check_of].
    destruct (negb (is_undefined
                      (check t (default VUndefined (args !! i)) (otherOptions slot)))
              && truthy (required slot)); reflexivity.
Qed.

(** X13. What a single-token slot does with a registered type, in full: a
    truthy check pushes [exec]'s result; an unmet check throws the argument
    error (token, cursor, type, no message) when [required] is truthy and the
    check returned something other than [undefined]; in every other case the
    slot pushes [undefined].  The cursor moves by one. *)
Theorem single_token_slot_outcome types args i slot typeName t :
  single_token slot = true ->
  first_tried slot.(type) = Some typeName ->
  findType typeName types = Some t ->
  parse_slot types args i slot =
  (if truthy (t.(check) (default VUndefined (args !! i)) slot.(otherOptions))
   then Return (One (t.(exec) (default VUndefined (args !! i))
                       slot.(otherOptions)), S i)
   else if negb (is_undefined
                   (t.(check) (default VUndefined (args !! i))
                      slot.(otherOptions)))
           && truthy slot.(required)
   then Throw (KitsuneParserArgumentError
                 (One (default VUndefined (args !! i))) (Z.of_nat i)
                 (Some slot.(type)) None)
   else Return (One VUndefined, S i)).
Proof. exact (parse_slot_single_cases types args i slot typeName t). Qed.

Lemma single_token_slot_outcome_witness :
  parse_slot constructor [VStr "12px"] 0%nat
    (slot (TName "number") (VBool true) None)
  = Throw (KitsuneParserArgumentError (One (VStr "12px")) 0
             (Some (TName "number")) None).
Proof.
  refine (eq_trans
            (single_token_slot_outcome constructor [VStr "12px"] 0%nat
               (slot (TName "number") (VBool true) None) "number" number_type
               _ _ _) _);
    reflexivity.
Defined.

(** X14. A required single-token slot whose check is unmet (and did not
    return [undefined]) makes [parse] throw the argument error with the
    token, its position and the type of the slot, whatever slots follow. *)
Theorem required_unmet_throws types args pre slot post parsed i typeName t :
  check_required args = Return tt ->
  forEach_slot types args pre [] 0%nat = Return (parsed, i) ->
  single_token slot = true ->
  first_tried slot.(type) = Some typeName ->
  findType typeName types = Some t ->
  truthy (t.(check) (default VUndefined (args !! i)) slot.(otherOptions)) = false ->
  is_undefined (t.(check) (default VUndefined (args !! i)) slot.(otherOptions))
  = false ->
  truthy slot.(required) = true ->
  parse types args (UsageArray (pre ++ slot :: post))
  = Throw (TokenValidationError (default VUndefined (args !! i)) i slot.(type)).
Proof.
  intros Hreq Hpre Hsingle Hfirst Hfind Hcheck Hundef Hrequired.
  rewrite (parse_reaches _ _ _ _ _ _ _ Hreq Hpre).
  rewrite (parse_slot_single_cases _ _ _ _ _ _ Hsingle Hfirst Hfind).
  by rewrite Hcheck, Hundef, Hrequired.
Qed.

Lemma required_unmet_throws_witness :
  parse constructor [VStr "7"; VStr "seven"; VStr "x"]
    (UsageArray ([slot (TName "number") (VBool true) None]
                 ++ slot (TName "number") (VBool true) None
                 :: [slot (TName "string") (VBool true) None]))
  = Throw (TokenValidationError (VStr "seven") 1 (TName "number")).
Proof.
  apply (required_unmet_throws constructor
           [VStr "7"; VStr "seven"; VStr "x"]
           [slot (TName "number") (VBool true) None]
           (slot (TName "number") (VBool true) None)
           [slot (TName "string") (VBool true) None]
           [One (VNum (Int 7))] 1%nat "number" number_type);
    reflexivity.
Defined.

(** X15. A check that returns [undefined] is not counted as a failure: the
    slot pushes [undefined] and throws nothing, even when it is required
    ([exec] is not called). *)
Theorem undefined_check_is_accepted types args i slot typeName t :
  single_token slot = true ->
  first_tried slot.(type) = Some typeName ->
  findType typeName types = Some t ->
  t.(check) (default VUndefined (args !! i)) slot.(otherOptions) = VUndefined ->
  parse_slot types args i slot = Return (One VUndefined, S i).
Proof.
  intros Hsingle Hfirst Hfind Hcheck.
  rewrite (parse_slot_single_cases _ _ _ _ _ _ Hsingle Hfirst Hfind).
  rewrite Hcheck. reflexivity.
Qed.

Lemma undefined_check_is_accepted_witness :
  parse_slot
    (<["word" := {| name := "word"; info := VUndefined;
                    exec := fun val _ => val;
                    check := fun val _ => get_prop "length" [] |}]> constructor)
    [VStr "a"] 0%nat (slot (TName "word") (VBool true) None)
  = Return (One VUndefined, 1%nat).
Proof.
  apply (undefined_check_is_accepted _ _ _ _ "word"
           {| name := "word"; info := VUndefined;
              exec := fun val _ => val;
              check := fun val _ => get_prop "length" [] |});
    reflexivity.
Defined.

(** ** Counted slots *)

(** With a registered type, every token of a window is resolved. *)
Lemma mapM_parseType_registered types typeName t opts vs :
  findType typeName types = Some t ->
  mapM (fun arg => parseType types typeName arg opts) vs
  = Return (map (fun arg =>
                   if truthy (t.(check) arg opts)
                   then ResValue (t.(exec) arg opts)
                   else ResCheck (t.(check) arg opts)) vs).
Proof.
  intros Hfind. induction vs as [| v vs IH]; [reflexivity |].
  rewrite mapM_cons, IH. unfold parseType. rewrite Hfind. reflexivity.
Qed.

Lemma failed_indices_passing (t : KitsuneParserType) opts (vs : list value) k :
  forallb (fun arg => truthy (t.(check) arg opts)) vs = true ->
  map (fun arg =>
         if truthy (t.(check) arg opts)
         then ResValue (t.(exec) arg opts)
         else ResCheck (t.(check) arg opts)) vs
  = map (fun arg => ResValue (t.(exec) arg opts)) vs
  /\ failed_indices
       (map (fun arg => ResValue (t.(exec) arg opts)) vs) k = [].
Proof.
  revert k. induction vs as [| v vs IH]; intros k Hall;
    [by split |].
  cbn [forallb] in Hall. apply andb_prop in Hall as [Hv Hvs].
  destruct (IH (S k) Hvs) as [Hmap Hfail]. cbn [map]. rewrite Hv, Hmap.
  split; [reflexivity |]. cbn. exact Hfail.
Qed.

(** X16. A counted slot with at least [count] tokens left, all of which pass
    the check, pushes the array of their [exec] results, in order, and moves
    the cursor by [count]. *)
Theorem counted_slot_success types args i slot c typeName t :
  slot.(count) = Some c ->
  (0 < c)%nat ->
  (i + c <= length args)%nat ->
  first_tried slot.(type) = Some typeName ->
  findType typeName types = Some t ->
  forallb (fun arg => truthy (t.(check) arg slot.(otherOptions)))
    (take c (drop i args)) = true ->
  parse_slot types args i slot
  = Return (Many (map (fun arg => t.(exec) arg slot.(otherOptions))
                    (take c (drop i args))),
            (i + c)%nat).
Proof.
  intros Hcount Hpos Hlen Hfirst Hfind Hpass. unfold parse_slot.
  rewrite Hcount. destruct c as [| c]; [lia |]. cbn [window advance].
  rewrite (resolve_first_tried _ _ _ _ _ _ Hfirst). unfold parseArg.
  rewrite (mapM_parseType_registered _ _ _ _ _ Hfind), !bind_Return.
  destruct (failed_indices_passing t _ _ 0%nat Hpass) as [Hmap Hfail].
  rewrite Hmap. unfold evaluate. rewrite Hfail, Hcount. cbn [from_option].
  assert (Hge : (length (map (fun arg => ResValue (exec t arg (otherOptions slot)))
                     (take (S c) (drop i args))) <? S c)%nat = false).
  { apply Nat.ltb_ge. rewrite length_map, length_take, length_drop. lia. }
  rewrite Hge, !bind_Return. cbn [entry_of andb negb is_undefined].
  rewrite map_map. reflexivity.
Qed.

Lemma counted_slot_success_witness :
  parse_slot constructor [VStr "go"; VStr "1"; VStr "2"; VStr "x"] 1%nat
    (slot (TName "number") (VBool true) (Some 2%nat))
  = Return (Many [VNum (Int 1); VNum (Int 2)], 3%nat).
Proof.
  refine (eq_trans
            (counted_slot_success constructor
               [VStr "go"; VStr "1"; VStr "2"; VStr "x"] 1%nat
               (slot (TName "number") (VBool true) (Some 2%nat)) 2%nat
               "number" number_type _ _ _ _ _ _) _);
    first [ reflexivity | cbn; lia ].
Defined.




(** ** String tokens against string slots *)

Lemma forEach_string_slots (ss : list string) :
  forall (done extra : list string) parsed,
    forEach_slot constructor (map VStr (done ++ ss ++ extra))
      (replicate (length ss) (slot (TName "string") (VBool true) None))
      parsed (length done)
    = Return (parsed ++ map (fun s => One (VStr s)) ss,
              (length done + length ss)%nat).
Proof.
  induction ss as [| s ss IH]; intros done extra parsed.
  - cbn. by rewrite app_nil_r, Nat.add_0_r.
  - cbn [length replicate forEach_slot].
    change ((s :: ss) ++ extra) with (s :: ss ++ extra).
    assert (Hlookup : map VStr (done ++ s :: ss ++ extra) !! length done
                      = Some (VStr s)).
    { rewrite map_app. rewrite lookup_app_r; rewrite length_map; [| lia].
      by rewrite Nat.sub_diag. }
    assert (Hslot : parse_slot constructor
                      (map VStr (done ++ s :: ss ++ extra)) (length done)
                      (slot (TName "string") (VBool true) None)
                    = Return (One (VStr s), S (length done))).
    { rewrite (parse_slot_single_cases constructor _ _
                 (slot (TName "string") (VBool true) None) "string" string_type
                 eq_refl eq_refl findType_string).
      rewrite Hlookup. reflexivity. }
    rewrite Hslot, bind_Return.
    specialize (IH (done ++ [s]) extra (parsed ++ [One (VStr s)])).
    rewrite <- !app_assoc, length_app in IH. cbn [app length] in IH.
    rewrite Nat.add_1_r in IH. rewrite IH. cbn [map].
    f_equal. f_equal. lia.
Qed.

(** X18. With the built-in types, string tokens parsed against one required
    'string' slot per token come back unchanged and in order; tokens beyond
    the last slot are ignored. *)
Theorem parse_strings_identity (ss extra : list string) :
  parse constructor (map VStr (ss ++ extra))
    (UsageArray
       (replicate (length ss) (slot (TName "string") (VBool true) None)))
  = Return (map (fun s => One (VStr s)) ss).
Proof.
  unfold parse. rewrite check_required_strings, bind_Return.
  pose proof (forEach_string_slots ss [] extra []) as Hloop.
  cbn [app length Nat.add] in Hloop. by rewrite Hloop.
Qed.


(** ** The check on [required], as the source runs it *)

Lemma findLastIndex_loop_cases {A} (array : list A) (predicate : A -> bool) l :
  findLastIndex_loop array predicate l = -1
  \/ exists k, findLastIndex_loop array predicate l = Z.of_nat k.
Proof.
  induction l as [| l IH]; cbn [findLastIndex_loop]; [by left |].
  destruct (from_option predicate false (array !! l)); [right; eauto | exact IH].
Qed.

Lemma findLastIndex_unique {A} (array : list A) (predicate : A -> bool) i x :
  array !! i = Some x ->
  predicate x = true ->
  (forall j y, j <> i -> array !! j = Some y -> predicate y = false) ->
  findLastIndex array predicate = Z.of_nat i.
Proof.
  intros Hx Hp Hothers. unfold findLastIndex.
  destruct (findLastIndex_loop_cases array predicate (length array))
    as [Hnone | [k Hk]].
  - pose proof (findLastIndex_loop_none _ _ _ Hnone i x
                  (lookup_lt_Some _ _ _ Hx) Hx) as Hfalse.
    congruence.
  - destruct (findLastIndex_loop_found _ _ _ _ Hk) as (_ & y & Hy & Hpy & _).
    destruct (decide (k = i)) as [-> | Hne]; [exact Hk |].
    rewrite (Hothers k y Hne Hy) in Hpy. discriminate Hpy.
Qed.

Lemma mapM_get_required_strings (tokens : list string) :
  mapM get_required (map VStr tokens)
  = Return (map (fun _ => VUndefined) tokens).
Proof.
  induction tokens as [| s tokens IH]; [reflexivity |].
  cbn [map]. rewrite mapM_cons, IH. reflexivity.
Qed.

Lemma mapM_get_required_strings_app (tokens : list string) rest r :
  mapM get_required rest = Return r ->
  mapM get_required (map VStr tokens ++ rest)
  = Return (map (fun _ => VUndefined) tokens ++ r).
Proof.
  intros Hrest. induction tokens as [| s tokens IH]; [exact Hrest |].
  cbn [map app]. rewrite mapM_cons, IH. reflexivity.
Qed.

Lemma filter_is_false_undefined (tokens : list string) :
  List.filter is_false (map (fun _ => VUndefined) tokens) = [].
Proof. induction tokens as [| s tokens IH]; [reflexivity | exact IH]. Qed.

Lemma lookup_undefined (tokens : list string) j y :
  map (fun _ : string => VUndefined) tokens !! j = Some y -> is_false y = false.
Proof.
  intros H. apply list_elem_of_lookup_2 in H.
  apply list_elem_of_fmap in H as (s & -> & _). reflexivity.
Qed.

(** X22. The check of lines 137-148 looks at the tokens: a token that is an
    object with [required: false], followed by at least one more token, makes
    [parse] throw the 'must be at the end' error with the index of that
    token, whatever the usage array says. *)
Theorem parse_order_error_from_tokens
    types (before after : list string) props slots :
  get_prop "required" props = VBool false ->
  after <> [] ->
  parse types (map VStr before ++ VObj props :: map VStr after)
    (UsageArray slots)
  = Throw (KitsuneParserArgumentError (One VUndefined)
             (Z.of_nat (length before)) None (Some message_at_the_end)).
Proof.
  intros Hprop Hafter. unfold parse, check_required.
  rewrite (mapM_get_required_strings_app before _
             (VBool false :: map (fun _ => VUndefined) after)).
  2:{ rewrite mapM_cons. cbn [get_required]. rewrite Hprop, bind_Return.
      by rewrite mapM_get_required_strings. }
  rewrite bind_Return.
  rewrite List.filter_app. cbn [List.filter is_false].
  rewrite !filter_is_false_undefined. cbn [app length Nat.ltb Nat.leb].
  rewrite (findLastIndex_unique _ is_false (length before) (VBool false)).
  - rewrite length_app, length_map. cbn [length]. rewrite length_map.
    destruct after as [| a after]; [contradiction |]. cbn [length].
    assert (Hlt : (Z.of_nat (length before)
                   <? Z.of_nat (length before + S (S (length after))) - 1) = true)
      by (apply Z.ltb_lt; lia).
    assert (Hne : (Z.of_nat (length before) =? -1) = false)
      by (apply Z.eqb_neq; lia).
    rewrite Hlt, Hne. reflexivity.
  - rewrite lookup_app_r; rewrite length_map; [| lia].
    by rewrite Nat.sub_diag.
  - reflexivity.
  - intros j y Hj Hy.
    destruct (decide (j < length before)%nat) as [Hlt | Hge].
    + rewrite lookup_app_l in Hy; [| by rewrite length_map].
      by apply lookup_undefined in Hy.
    + rewrite lookup_app_r in Hy; rewrite length_map in *; [| lia].
      destruct (j - length before)%nat as [| k] eqn:Hk; [lia |].
      cbn in Hy. by apply lookup_undefined in Hy.
Qed.

Lemma parse_order_error_from_tokens_witness :
  parse constructor
    (map VStr ["a"] ++ VObj [("required", VBool false)] :: map VStr ["b"])
    (UsageArray [slot (TName "string") (VBool true) None])
  = Throw (KitsuneParserArgumentError (One VUndefined)
             (Z.of_nat (length ["a"])) None (Some message_at_the_end)).
Proof.
  apply parse_order_error_from_tokens; [reflexivity | discriminate].
Defined.

(** ** The built-in types *)

(** X23. The built-in 'string' type accepts the string tokens and nothing
    else, and its [exec] returns the string unchanged. *)
Theorem string_type_accepts_strings val opts :
  (truthy (string_type.(check) val opts) = true <-> exists s, val = VStr s)
  /\ forall s, string_type.(exec) (VStr s) opts = VStr s.
Proof.
  split; [| reflexivity]. split.
  - destruct val; cbn; try discriminate. eauto.
  - intros [s ->]. reflexivity.
Qed.

Lemma trim_start_blank (cs : list ascii) :
  forallb is_whitespace cs = true -> trim_start cs = [].
Proof.
  induction cs as [| c cs IH]; [reflexivity |]. cbn [forallb trim_start].
  intros H. apply andb_prop in H as [Hc Hcs]. rewrite Hc. by apply IH.
Qed.

(** X24. The built-in 'number' type accepts a blank string (empty, or made
    of white space only) and converts it to [NaN]: [isNaN] reads it as [0],
    [parseInt] finds no digit. *)
Theorem number_type_blank_string s opts :
  forallb is_whitespace (chars s) = true ->
  truthy (number_type.(check) (VStr s) opts) = true
  /\ number_type.(exec) (VStr s) opts = VNum NaN.
Proof.
  intros Hblank. pose proof (trim_start_blank _ Hblank) as Htrim. split.
  - cbn. unfold string_is_numeric, trim. rewrite Htrim. reflexivity.
  - cbn. unfold parseInt. cbn [String_]. rewrite Htrim. reflexivity.
Qed.

Lemma number_type_blank_string_witness :
  truthy (number_type.(check) (VStr "  ") []) = true
  /\ number_type.(exec) (VStr "  ") [] = VNum NaN.
Proof.
  apply number_type_blank_string. reflexivity.
Defined.
